(** * Binomial-lattice option pricing: a shallow embedding of
      [option_payoff] and [option_prices]

    The Python source prices a put or call on a recombining binomial
    tree.  It keeps three dictionaries (stock prices, payoffs, option
    values), each mapping a layer index [i] to a list of [i+1] cells that
    start out as [None] and are overwritten in place.

    Conventions of the embedding:
    - Python [int] is [Z].
    - Python [float] is idealised as a real number [R], and [np.exp] as the
      real exponential: an arithmetic expression of the source is the same
      expression over [R], without rounding, [inf] or [nan].  The one
      arithmetic exception of the source is kept: [u ** k] raises
      [OverflowError] when the power is too large for a double.
      Statements about node values are stated on the stores the call
      returns and say which expression each node holds.
    - Exceptions are values of [exn]; a computation returns [result].
    - Lists are heap objects: a dictionary stores a reference ([loc]),
      and the heap maps references to lists.  This keeps the aliasing
      introduced by [option_values[n_steps-1] = option_payoffs[n_steps-1]]. *)

From Stdlib Require Import Reals Lra Lia ZArith String.
From stdpp Require Import base option list gmap.

#[local] Open Scope Z_scope.

(** ** Exceptions and the error monad *)

Inductive exn : Type :=
| OptionTypeInvalid
| OptionSpeciesInvalid
| ZeroDivisionError
| KeyError
| IndexError
| TypeError
| OverflowError.

Inductive result (A : Type) : Type :=
| Ok (a : A)
| Raise (e : exn).
Arguments Ok {A} a.
Arguments Raise {A} e.

#[global] Instance result_ret : MRet result := fun A a => Ok a.
#[global] Instance result_bind : MBind result := fun A B f m =>
  match m with
  | Ok a => f a
  | Raise e => Raise e
  end.

(** ** Python primitives *)

(** [max(a, b)]: the first of the largest arguments, so [b] only when
    [b > a]. *)
Definition py_max (a b : R) : R :=
  if Rlt_dec a b then b else a.

(** True division of Python floats. *)
Definition py_div (x y : R) : result R :=
  if Req_dec_T y 0 then Raise ZeroDivisionError else Ok (x / y)%R.

(** True division when the divisor is a [numpy.float64]: never raises.  In
    the model the divisor is [(u-v) * exp _], which is zero only when
    [u = v], and then the preceding Python division has already raised. *)
Definition np_div (x y : R) : R := (x / y)%R.

(** Every double is smaller in magnitude than [2^1024]; the largest one is
    [2^1024 - 2^971]. *)
Definition overflow_bound : R := IZR (2 ^ 1024).
Definition float_max : R := IZR (2 ^ 1024 - 2 ^ 971).

(** A float power whose magnitude reaches [overflow_bound] cannot be
    rounded to a double: Python raises [OverflowError].  (Between
    [float_max] and [overflow_bound] the outcome depends on rounding; the
    model lets the power through there.) *)
Definition checked_pow (r : R) : result R :=
  if Rle_dec overflow_bound (Rabs r) then Raise OverflowError else Ok r.

(** [x ** k] for a float base and an int exponent. *)
Definition py_pow (x : R) (k : Z) : result R :=
  if 0 <=? k then checked_pow (x ^ Z.to_nat k)%R
  else if Req_dec_T x 0 then Raise ZeroDivisionError
       else checked_pow (/ (x ^ Z.to_nat (- k)))%R.

(** [range(n)]. *)
Definition py_range (n : Z) : list Z := seqZ 0 n.

(** [for x in xs: body], threading the state and stopping at the first
    exception. *)
Fixpoint for_each {St : Type} (xs : list Z) (body : Z -> St -> result St)
    (st : St) : result St :=
  match xs with
  | [] => Ok st
  | x :: xs' => st' ← body x st; for_each xs' body st'
  end.

(** ** The store *)

(** A cell of a lattice list: [None] is Python's [None]. *)
Abbreviation cell := (option R).

(** The three dictionary comprehensions are the only allocation sites; the
    list allocated for layer [i] by a site is named by the pair. *)
Inductive site : Type := Stock | Payoff | Value.

#[global] Instance site_eq_dec : EqDecision site.
Proof. solve_decision. Defined.

#[global] Instance site_countable : Countable site.
Proof.
  refine (inj_countable'
            (fun s => match s with Stock => 0%nat | Payoff => 1%nat | Value => 2%nat end)
            (fun n => match n with 0%nat => Stock | 1%nat => Payoff | _ => Value end) _).
  by intros [].
Defined.

Abbreviation loc := (site * Z)%type.

Record state : Type := mkState {
  heap : gmap loc (list cell);
  stock_prices : gmap Z loc;
  option_payoffs : gmap Z loc;
  option_values : gmap Z loc
}.

(** The dictionary a statement subscripts. *)
Definition dict_of (w : site) (st : state) : gmap Z loc :=
  match w with
  | Stock => stock_prices st
  | Payoff => option_payoffs st
  | Value => option_values st
  end.

Definition set_heap (h : gmap loc (list cell)) (st : state) : state :=
  mkState h (stock_prices st) (option_payoffs st) (option_values st).

(** [d[i]] on a dictionary. *)
Definition dict_get (d : gmap Z loc) (i : Z) : result loc :=
  match d !! i with
  | Some l => Ok l
  | None => Raise KeyError
  end.

(** Position of index [j] in a list of length [len]; negative indices count
    from the end. *)
Definition list_index (len : nat) (j : Z) : result nat :=
  if (0 <=? j) && (j <? Z.of_nat len) then Ok (Z.to_nat j)
  else if (- Z.of_nat len <=? j) && (j <? 0) then Ok (Z.to_nat (Z.of_nat len + j))
  else Raise IndexError.

(** [d[i][j]] read. *)
Definition getitem (w : site) (i j : Z) (st : state) : result cell :=
  l ← dict_get (dict_of w st) i;
  let xs := heap st !!! l in
  k ← list_index (length xs) j;
  Ok (xs !!! k).

(** A cell used as an operand of float arithmetic. *)
Definition as_float (c : cell) : result R :=
  match c with
  | Some x => Ok x
  | None => Raise TypeError
  end.

(** [d[i][j] = x]. *)
Definition setitem (w : site) (i j : Z) (x : R) (st : state) : result state :=
  l ← dict_get (dict_of w st) i;
  let xs := heap st !!! l in
  k ← list_index (length xs) j;
  Ok (set_heap (<[l := <[k := Some x]> xs]> (heap st)) st).

(** [{i: [None for _ in range(i+1)] for i in range(n_steps)}], allocating
    at site [w]. *)
Definition alloc_lattice (w : site) (n_steps : Z) (h : gmap loc (list cell))
    : gmap loc (list cell) * gmap Z loc :=
  foldl (fun '(h, d) i =>
           (<[(w, i) := replicate (length (py_range (i + 1))) None]> h,
            <[i := (w, i)]> d))
        (h, ∅) (py_range n_steps).

(** ** The source functions *)

(** The asset price arrives as it was read from a list; a [None] would
    fail only inside the subtraction. *)
Definition option_payoff (option_type : string) (asset_price : cell)
    (strike_price : R) : result R :=
  if String.eqb option_type "call" then
    s ← as_float asset_price; Ok (py_max 0 (s - strike_price))
  else if String.eqb option_type "put" then
    s ← as_float asset_price; Ok (py_max 0 (strike_price - s))
  else Raise OptionTypeInvalid.

Section Pricer.

Variables (option_type option_species : string).
Variables (strike_price stock_init_price u v risk_free_rate : R).

(** Body of the forward loop at node [(i, j)]. *)
Definition forward_node (i j : Z) (st : state) : result state :=
  pu ← py_pow u (i - j);
  pv ← py_pow v j;
  st ← setitem Stock i j (stock_init_price * pu * pv)%R st;
  s ← getitem Stock i j st;
  p ← option_payoff option_type s strike_price;
  setitem Payoff i j p st.

Definition forward_pass (n_steps : Z) (st : state) : result state :=
  for_each (py_range n_steps)
    (fun i => for_each (py_range (i + 1)) (fun j => forward_node i j)) st.

(** [option_values[n_steps-1] = option_payoffs[n_steps-1]]: the value
    dictionary now refers to the payoff list itself. *)
Definition terminal_condition (n_steps : Z) (st : state) : result state :=
  l ← dict_get (option_payoffs st) (n_steps - 1);
  Ok (mkState (heap st) (stock_prices st) (option_payoffs st)
        (<[n_steps - 1 := l]> (option_values st))).

(** The expression shared by both styles, operands read in source
    order. *)
Definition continuation (step_size : R) (i_retro j : Z) (st : state)
    : result R :=
  ca ← getitem Value i_retro j st;
  cb ← getitem Value i_retro (j + 1) st;
  a ← as_float ca;
  b ← as_float cb;
  t1 ← py_div (a - b) (u - v);
  cb' ← getitem Value i_retro (j + 1) st;
  b' ← as_float cb';
  ca' ← getitem Value i_retro j st;
  a' ← as_float ca';
  Ok (t1 + np_div (u * b' - v * a')
                  ((u - v) * exp (risk_free_rate * step_size)))%R.

(** Body of the backward loop. *)
Definition backward_node (step_size : R) (n_steps i j : Z) (st : state)
    : result state :=
  let i_retro := n_steps - i - 1 in
  if String.eqb option_species "european" then
    c ← continuation step_size i_retro j st;
    setitem Value (i_retro - 1) j c st
  else if String.eqb option_species "american" then
    c ← continuation step_size i_retro j st;
    s ← getitem Stock (i_retro - 1) j st;
    p ← option_payoff option_type s strike_price;
    setitem Value (i_retro - 1) j (py_max c p) st
  else Raise OptionSpeciesInvalid.

Definition backward_pass (step_size : R) (n_steps : Z) (st : state)
    : result state :=
  for_each (py_range n_steps)
    (fun i => for_each (py_range (n_steps - i - 1))
                (fun j => backward_node step_size n_steps i j)) st.

(** The three dictionaries before the forward pass. *)
Definition init_state (n_steps : Z) : state :=
  let '(h, sp) := alloc_lattice Stock n_steps ∅ in
  let '(h, op) := alloc_lattice Payoff n_steps h in
  let '(h, ov) := alloc_lattice Value n_steps h in
  mkState h sp op ov.

(** The returned list [[stock_prices, option_payoffs, option_values]] is
    the final [state]: three dictionaries and the lists they refer to. *)
Definition option_prices (tot_time : R) (n_steps : Z) : result state :=
  step_size ← py_div tot_time (IZR n_steps);
  let n_steps := n_steps + 1 in
  let st := init_state n_steps in
  st ← forward_pass n_steps st;
  st ← terminal_condition n_steps st;
  st ← backward_pass step_size n_steps st;
  Ok st.

End Pricer.

(** ** Reading a returned lattice *)

(** [lattice w st i j]: the number stored at [d[i][j]] of dictionary [w],
    if layer [i] exists, has a position [j], and the cell is not [None]. *)
Definition lattice (w : site) (st : state) (i j : Z) : option R :=
  l ← dict_of w st !! i;
  xs ← heap st !! l;
  if 0 <=? j then mjoin (xs !! Z.to_nat j) else None.

(** The list object behind layer [i] of dictionary [w], with its cells. *)
Definition layer (w : site) (st : state) (i : Z) : option (list cell) :=
  l ← dict_of w st !! i; heap st !! l.

(** ** Vocabulary of the specification *)

Definition valid_kind (option_type : string) : Prop :=
  option_type = "call"%string \/ option_type = "put"%string.

Definition valid_style (option_species : string) : Prop :=
  option_species = "european"%string \/ option_species = "american"%string.

(** [payoff(call, S, K) = max(0, S - K)] and
    [payoff(put, S, K) = max(0, K - S)]. *)
Definition payoff_spec (option_type : string) (S K : R) : R :=
  if String.eqb option_type "call" then Rmax 0 (S - K) else Rmax 0 (K - S).

(** Every power [x ** k] with [0 <= k <= N] is at most the largest
    double, so none of them overflows. *)
Definition powers_fit (x : R) (N : Z) : Prop :=
  forall k, 0 <= k <= N -> (Rabs (x ^ Z.to_nat k) <= float_max)%R.

(** No power [x ** k] with [0 <= k <= N] reaches the bound at which
    [py_pow] raises. *)
Definition no_overflow (x : R) (N : Z) : Prop :=
  forall k, 0 <= k <= N -> (Rabs (x ^ Z.to_nat k) < overflow_bound)%R.

(** ** Closed forms and loop invariants *)

(** Cell [j] of the list allocated at [(w, i)]. *)
Definition cell_of (st : state) (w : site) (i j : Z) : option cell :=
  xs ← heap st !! (w, i); xs !! Z.to_nat j.

(** The list that [d[i]] of dictionary [w] refers to: after the terminal
    condition ([al = true]) the last value layer is the payoff list. *)
Definition target (n : Z) (al : bool) (w : site) (i : Z) : site :=
  match w with
  | Value => if al && (i =? n - 1) then Payoff else Value
  | _ => w
  end.

(** Each dictionary has exactly the keys [0..n-1], and layer [i] is a list
    of [i+1] cells. *)
Record shaped (n : Z) (al : bool) (st : state) : Prop := {
  sh_dict : forall w i, 0 <= i < n -> dict_of w st !! i = Some (target n al w i, i);
  sh_dom : forall w i, ~ 0 <= i < n -> dict_of w st !! i = None;
  sh_heap : forall w i, 0 <= i < n ->
            exists xs, heap st !! (w, i) = Some xs /\ length xs = Z.to_nat (i + 1)
}.

(** [am] is the style the two string tests select. *)
Definition style_is (option_species : string) (am : bool) : Prop :=
  (option_species = "european"%string /\ am = false)
  \/ (option_species = "american"%string /\ am = true).

Section Reference.

Variables (option_type : string).
Variables (strike_price stock_init_price u v : R).

(** Price at node [(i, j)]: [i - j] up moves and [j] down moves. *)
Definition stock_at (i j : Z) : R :=
  (stock_init_price * u ^ Z.to_nat (i - j) * v ^ Z.to_nat j)%R.

(** Intrinsic value for a kind already known to be call or put. *)
Definition intrinsic (s : R) : R :=
  if String.eqb option_type "call" then py_max 0 (s - strike_price)
  else py_max 0 (strike_price - s).

Definition payoff_at (i j : Z) : R := intrinsic (stock_at i j).

(** Discounted risk-neutral expectation of the successors [a] (up) and
    [b] (down), with discount factor [D = exp (r * dt)]. *)
Definition cont (D a b : R) : R :=
  ((a - b) / (u - v) + (u * b - v * a) / ((u - v) * D))%R.

(** Option value at node [(i, j)] when [k] layers remain to maturity. *)
Fixpoint value_at (american : bool) (D : R) (k : nat) (i j : Z) : R :=
  match k with
  | O => payoff_at i j
  | S k' =>
      let c := cont D (value_at american D k' (i + 1) j)
                      (value_at american D k' (i + 1) (j + 1)) in
      if american then py_max c (payoff_at i j) else c
  end.

(** Node [(i, j)] of the stock and payoff lists holds its final value. *)
Definition filled (st : state) (i j : Z) : Prop :=
  cell_of st Stock i j = Some (Some (stock_at i j))
  /\ cell_of st Payoff i j = Some (Some (payoff_at i j)).

(** Forward loop invariant: all layers below [i] and the first [k] nodes
    of layer [i] are filled. *)
Definition fwd_inv (n i k : Z) (st : state) : Prop :=
  shaped n false st
  /\ forall i' j', 0 <= j' <= i' -> i' < i \/ (i' = i /\ j' < k) -> filled st i' j'.

(** Backward loop invariant: stock and payoff lattices are complete; the
    value layers from [n-1-i] upwards, and the first [k] nodes of layer
    [n-2-i], hold the closed form. *)
Definition bwd_inv (am : bool) (D : R) (n i k : Z) (st : state) : Prop :=
  shaped n true st
  /\ (forall i' j', 0 <= j' <= i' -> i' < n -> filled st i' j')
  /\ (forall i' j', 0 <= j' <= i' -> i' < n ->
        n - 1 - i <= i' \/ (i' = n - 2 - i /\ j' < k) ->
        cell_of st (target n true Value i') i' j'
        = Some (Some (value_at am D (Z.to_nat (n - 1 - i')) i' j'))).

(** What a returned store holds for [n_steps = N]: dictionaries keyed by
    [0..N], the last value layer being the payoff list itself, and the
    closed forms at every node. *)
Definition final (am : bool) (D : R) (N : Z) (st : state) : Prop :=
  shaped (N + 1) true st
  /\ forall i j, 0 <= j <= i -> i <= N ->
       lattice Stock st i j = Some (stock_at i j)
       /\ lattice Payoff st i j = Some (payoff_at i j)
       /\ lattice Value st i j = Some (value_at am D (Z.to_nat (N - i)) i j).

End Reference.

(** ** Facts about the primitives *)

Lemma py_max_Rmax (a b : R) : py_max a b = Rmax a b.
Proof.
  unfold py_max, Rmax.
  destruct (Rlt_dec a b), (Rle_dec a b); lra.
Qed.

Lemma py_max_l (a b : R) : (a <= py_max a b)%R.
Proof. rewrite py_max_Rmax. apply Rmax_l. Qed.

Lemma py_max_r (a b : R) : (b <= py_max a b)%R.
Proof. rewrite py_max_Rmax. apply Rmax_r. Qed.

Lemma py_div_ok (x y : R) : y <> 0%R -> py_div x y = Ok (x / y)%R.
Proof. intros Hy. unfold py_div. by destruct (Req_dec_T y 0). Qed.

Lemma py_div_zero (x : R) : py_div x 0 = Raise ZeroDivisionError.
Proof. unfold py_div. by destruct (Req_dec_T 0 0). Qed.

Lemma float_max_lt_bound : (float_max < overflow_bound)%R.
Proof. apply IZR_lt. by vm_compute. Qed.

Lemma two_le_float_max : (2 <= float_max)%R.
Proof. apply IZR_le. by vm_compute. Qed.

Lemma powers_fit_no_overflow (x : R) (N : Z) : powers_fit x N -> no_overflow x N.
Proof.
  intros H k Hk. eapply Rle_lt_trans; [by apply H | apply float_max_lt_bound].
Qed.

Lemma py_pow_ok (x : R) (k : Z) :
  0 <= k -> (Rabs (x ^ Z.to_nat k) < overflow_bound)%R ->
  py_pow x k = Ok (x ^ Z.to_nat k)%R.
Proof.
  intros Hk Hlt. unfold py_pow, checked_pow.
  destruct (0 <=? k) eqn:E; [|lia].
  destruct (Rle_dec _ _); [lra | done].
Qed.

Lemma py_pow_cases (x : R) (k : Z) :
  0 <= k ->
  py_pow x k = Ok (x ^ Z.to_nat k)%R \/ py_pow x k = Raise OverflowError.
Proof.
  intros Hk. unfold py_pow, checked_pow.
  destruct (0 <=? k) eqn:E; [|lia].
  destruct (Rle_dec _ _); [by right | by left].
Qed.

Lemma py_pow_returns (x : R) (k : Z) (y : R) :
  0 <= k -> py_pow x k = Ok y ->
  (Rabs (x ^ Z.to_nat k) < overflow_bound)%R.
Proof.
  intros Hk. unfold py_pow, checked_pow.
  destruct (0 <=? k) eqn:E; [|lia].
  destruct (Rle_dec _ _); [discriminate | lra].
Qed.

Lemma py_pow_overflows (x : R) (k : Z) :
  0 <= k -> (overflow_bound <= Rabs (x ^ Z.to_nat k))%R ->
  py_pow x k = Raise OverflowError.
Proof.
  intros Hk Hle. unfold py_pow, checked_pow.
  destruct (0 <=? k) eqn:E; [|lia].
  destruct (Rle_dec _ _); [done | lra].
Qed.

(** [x ** 0] is [1.0] for every [x]. *)
Lemma py_pow_zero (x : R) : py_pow x 0 = Ok 1%R.
Proof.
  rewrite py_pow_ok; [done | lia |]. simpl.
  rewrite Rabs_R1. apply Rlt_le_trans with 2%R; [lra|].
  apply Rle_trans with float_max; [apply two_le_float_max|].
  apply Rlt_le, float_max_lt_bound.
Qed.

Lemma list_index_ok (len : nat) (j : Z) :
  0 <= j < Z.of_nat len -> list_index len j = Ok (Z.to_nat j).
Proof.
  intros Hj. unfold list_index.
  destruct (0 <=? j) eqn:E1; [|lia].
  destruct (j <? Z.of_nat len) eqn:E2; [done | lia].
Qed.

Lemma length_py_range (n : Z) : length (py_range n) = Z.to_nat n.
Proof. unfold py_range. apply length_seqZ. Qed.

Lemma option_payoff_valid (option_type : string) (s K : R) :
  valid_kind option_type ->
  option_payoff option_type (Some s) K = Ok (intrinsic option_type K s).
Proof.
  intros [-> | ->]; reflexivity.
Qed.

Lemma option_payoff_invalid (option_type : string) (c : cell) (K : R) :
  option_type <> "call"%string -> option_type <> "put"%string ->
  option_payoff option_type c K = Raise OptionTypeInvalid.
Proof.
  intros Hc Hp. unfold option_payoff.
  destruct (String.eqb_spec option_type "call"); [done|].
  destruct (String.eqb_spec option_type "put"); done.
Qed.

Lemma intrinsic_nonneg (option_type : string) (K s : R) :
  (0 <= intrinsic option_type K s)%R.
Proof. unfold intrinsic. destruct (String.eqb _ _); apply py_max_l. Qed.

Lemma intrinsic_spec (option_type : string) (K s : R) :
  intrinsic option_type K s = payoff_spec option_type s K.
Proof.
  unfold intrinsic, payoff_spec.
  destruct (String.eqb _ _); apply py_max_Rmax.
Qed.

Lemma valid_style_flag (option_species : string) :
  valid_style option_species -> exists am, style_is option_species am.
Proof.
  intros [->| ->]; [exists false; by left | exists true; by right].
Qed.

Lemma style_cases (option_species : string) :
  (exists am, style_is option_species am)
  \/ (option_species <> "european"%string /\ option_species <> "american"%string).
Proof.
  destruct (string_dec option_species "european") as [He|He].
  { left. exists false. by left. }
  destruct (string_dec option_species "american") as [Ha|Ha].
  { left. exists true. by right. }
  by right.
Qed.

(** ** Loops over a range *)

(** An invariant indexed by the number of iterations done. *)
Lemma for_each_seqZ {St : Type} (P : Z -> St -> Prop) (body : Z -> St -> result St)
    (len : nat) (m : Z) (st : St) :
  P m st ->
  (forall k s, m <= k < m + Z.of_nat len -> P k s ->
     exists s', body k s = Ok s' /\ P (k + 1) s') ->
  exists s', for_each (seqZ m (Z.of_nat len)) body st = Ok s'
             /\ P (m + Z.of_nat len) s'.
Proof.
  revert m st. induction len as [|len IH]; intros m st H0 Hstep.
  - exists st. split; [done|]. by replace (m + Z.of_nat 0) with m by lia.
  - rewrite seqZ_cons by lia. simpl.
    destruct (Hstep m st) as (s1 & -> & H1); [lia | done |]. simpl.
    replace (Z.pred (Z.of_nat (S len))) with (Z.of_nat len) by lia.
    replace (Z.succ m) with (m + 1) by lia.
    destruct (IH (m + 1) s1 H1) as (s2 & -> & H2).
    + intros k s Hk. apply Hstep. lia.
    + exists s2. split; [done|].
      by replace (m + Z.of_nat (S len)) with (m + 1 + Z.of_nat len) by lia.
Qed.

Lemma for_each_range {St : Type} (P : Z -> St -> Prop) (body : Z -> St -> result St)
    (n : Z) (st : St) :
  0 <= n ->
  P 0 st ->
  (forall k s, 0 <= k < n -> P k s -> exists s', body k s = Ok s' /\ P (k + 1) s') ->
  exists s', for_each (py_range n) body st = Ok s' /\ P n s'.
Proof.
  intros Hn H0 Hstep. unfold py_range.
  destruct (for_each_seqZ P body (Z.to_nat n) 0 st H0) as (s' & Hs & HP).
  - intros k s Hk. apply Hstep. lia.
  - exists s'. rewrite Z2Nat.id in Hs, HP by lia. by rewrite Z.add_0_l in HP.
Qed.

Lemma for_each_range_empty {St : Type} (body : Z -> St -> result St) (n : Z) (st : St) :
  n <= 0 -> for_each (py_range n) body st = Ok st.
Proof.
  intros Hn. unfold py_range, seqZ.
  by replace (Z.to_nat n) with 0%nat by lia.
Qed.

Lemma for_each_range_first {St : Type} (body : Z -> St -> result St) (n : Z) (st : St) :
  0 < n ->
  for_each (py_range n) body st
  = st' ← body 0 st; for_each (seqZ 1 (n - 1)) body st'.
Proof.
  intros Hn. unfold py_range. rewrite seqZ_cons by lia. simpl.
  by replace (Z.pred n) with (n - 1) by lia.
Qed.

(** The same with a body that may raise [e]: the loop returns with the
    invariant or raises [e]. *)
Lemma for_each_seqZ_cases {St : Type} (P : Z -> St -> Prop)
    (body : Z -> St -> result St) (e : exn) (len : nat) (m : Z) (st : St) :
  P m st ->
  (forall k s, m <= k < m + Z.of_nat len -> P k s ->
     (exists s', body k s = Ok s' /\ P (k + 1) s') \/ body k s = Raise e) ->
  (exists s', for_each (seqZ m (Z.of_nat len)) body st = Ok s'
              /\ P (m + Z.of_nat len) s')
  \/ for_each (seqZ m (Z.of_nat len)) body st = Raise e.
Proof.
  revert m st. induction len as [|len IH]; intros m st H0 Hstep.
  - left. exists st. split; [done|]. by replace (m + Z.of_nat 0) with m by lia.
  - rewrite seqZ_cons by lia. simpl.
    destruct (Hstep m st) as [(s1 & -> & H1) | ->]; [lia | done | | by right].
    simpl.
    replace (Z.pred (Z.of_nat (S len))) with (Z.of_nat len) by lia.
    replace (Z.succ m) with (m + 1) by lia.
    destruct (IH (m + 1) s1 H1) as [(s2 & -> & H2) | ->]; [| | by right].
    + intros k s Hk. apply Hstep. lia.
    + left. exists s2. split; [done|].
      by replace (m + Z.of_nat (S len)) with (m + 1 + Z.of_nat len) by lia.
Qed.

Lemma for_each_range_cases {St : Type} (P : Z -> St -> Prop)
    (body : Z -> St -> result St) (e : exn) (n : Z) (st : St) :
  0 <= n ->
  P 0 st ->
  (forall k s, 0 <= k < n -> P k s ->
     (exists s', body k s = Ok s' /\ P (k + 1) s') \/ body k s = Raise e) ->
  (exists s', for_each (py_range n) body st = Ok s' /\ P n s')
  \/ for_each (py_range n) body st = Raise e.
Proof.
  intros Hn H0 Hstep. unfold py_range.
  destruct (for_each_seqZ_cases P body e (Z.to_nat n) 0 st H0) as [(s' & Hs & HP) | Hr].
  - intros k s Hk. apply Hstep. lia.
  - left. exists s'. rewrite Z2Nat.id in Hs, HP by lia. by rewrite Z.add_0_l in HP.
  - right. by rewrite Z2Nat.id in Hr by lia.
Qed.

(** A loop that returns has run its body to completion on every
    element. *)
Lemma for_each_returns {St : Type} (xs : list Z) (body : Z -> St -> result St)
    (st st' : St) :
  for_each xs body st = Ok st' ->
  forall x, x ∈ xs -> exists s s', body x s = Ok s'.
Proof.
  revert st. induction xs as [|y xs IH]; intros st Hrun x Hx.
  - by apply elem_of_nil in Hx.
  - simpl in Hrun. destruct (body y st) as [s1|e] eqn:Hy; [|discriminate].
    simpl in Hrun. apply elem_of_cons in Hx as [->|Hx].
    + by exists st, s1.
    + by apply (IH s1).
Qed.

(** ** Allocation *)

Lemma alloc_fold (w : site) (ks : list Z) (h : gmap loc (list cell)) (d : gmap Z loc) :
  let r := foldl (fun '(h, d) i =>
                    (<[(w, i) := replicate (length (py_range (i + 1))) None]> h,
                     <[i := (w, i)]> d)) (h, d) ks in
  (forall i, i ∈ ks -> r.2 !! i = Some (w, i)
                      /\ r.1 !! (w, i) = Some (replicate (Z.to_nat (i + 1)) None))
  /\ (forall i, i ∉ ks -> r.2 !! i = d !! i)
  /\ (forall l, (l.1 <> w \/ l.2 ∉ ks) -> r.1 !! l = h !! l).
Proof.
  revert h d. induction ks as [|k ks IH]; intros h d; simpl.
  - split; [|done]. intros i Hi. by apply elem_of_nil in Hi.
  - specialize (IH (<[(w, k) := replicate (length (py_range (k + 1))) None]> h)
                   (<[k := (w, k)]> d)).
    simpl in IH. destruct IH as (IH1 & IH2 & IH3).
    split; [|split].
    + intros i Hi. destruct (decide (i ∈ ks)) as [Hin|Hnin]; [by apply IH1|].
      apply elem_of_cons in Hi as [->|Hi]; [|done].
      rewrite IH2 by done. rewrite IH3 by (right; done).
      rewrite !lookup_insert_eq, length_py_range. done.
    + intros i Hi. apply not_elem_of_cons in Hi as [Hne Hi].
      rewrite IH2 by done. by rewrite lookup_insert_ne.
    + intros [w' i] Hl. simpl in Hl.
      rewrite IH3.
      * rewrite lookup_insert_ne; [done|].
        intros [= <- <-]. destruct Hl as [Hl|Hl]; [done|].
        apply Hl. left.
      * destruct Hl as [Hl|Hl]; [by left|right].
        simpl. by apply not_elem_of_cons in Hl as [_ Hl].
Qed.

Lemma alloc_lattice_spec (w : site) (n : Z) (h : gmap loc (list cell)) :
  (forall i, 0 <= i < n ->
     (alloc_lattice w n h).2 !! i = Some (w, i)
     /\ (alloc_lattice w n h).1 !! (w, i) = Some (replicate (Z.to_nat (i + 1)) None))
  /\ (forall i, ~ 0 <= i < n -> (alloc_lattice w n h).2 !! i = None)
  /\ (forall w' i, w' <> w -> (alloc_lattice w n h).1 !! (w', i) = h !! (w', i)).
Proof.
  unfold alloc_lattice.
  destruct (alloc_fold w (py_range n) h ∅) as (H1 & H2 & H3).
  split; [|split].
  - intros i Hi. apply H1. unfold py_range. apply elem_of_seqZ. lia.
  - intros i Hi. rewrite H2; [done|].
    unfold py_range. rewrite elem_of_seqZ. lia.
  - intros w' i Hw. apply H3. by left.
Qed.

(** The initial store: the right keys, and nothing but [None] in the
    lists. *)
Lemma init_state_cells (n : Z) :
  shaped n false (init_state n)
  /\ forall w i, 0 <= i < n ->
       heap (init_state n) !! (w, i) = Some (replicate (Z.to_nat (i + 1)) None).
Proof.
  unfold init_state.
  pose proof (alloc_lattice_spec Stock n ∅) as (HS1 & HS2 & HS3).
  destruct (alloc_lattice Stock n ∅) as [h1 sp]. simpl in *.
  pose proof (alloc_lattice_spec Payoff n h1) as (HP1 & HP2 & HP3).
  destruct (alloc_lattice Payoff n h1) as [h2 op]. simpl in *.
  pose proof (alloc_lattice_spec Value n h2) as (HV1 & HV2 & HV3).
  destruct (alloc_lattice Value n h2) as [h3 ov]. simpl in *.
  assert (forall w i, 0 <= i < n ->
            h3 !! (w, i) = Some (replicate (Z.to_nat (i + 1)) None)) as Hheap.
  { intros [] i Hi.
    - rewrite HV3, HP3 by done. by apply HS1.
    - rewrite HV3 by done. by apply HP1.
    - by apply HV1. }
  split; [|done]. split.
  - intros [] i Hi; simpl; [by apply HS1 | by apply HP1 | by apply HV1].
  - intros [] i Hi; simpl; [by apply HS2 | by apply HP2 | by apply HV2].
  - intros w i Hi. eexists. split; [by apply Hheap|]. by rewrite length_replicate.
Qed.

Lemma init_state_shaped (n : Z) : shaped n false (init_state n).
Proof. apply init_state_cells. Qed.


(** ** Subscript reads and writes on a shaped store *)

Lemma getitem_shaped (n : Z) (al : bool) (st : state) (w : site) (i j : Z) (c : cell) :
  shaped n al st -> 0 <= i < n -> 0 <= j <= i ->
  cell_of st (target n al w i) i j = Some c ->
  getitem w i j st = Ok c.
Proof.
  intros [Hd _ Hh] Hi Hj Hc. unfold getitem, dict_get.
  rewrite Hd by done. simpl.
  unfold cell_of in Hc.
  destruct (Hh (target n al w i) i Hi) as (xs & Hxs & Hlen).
  rewrite Hxs in Hc. simpl in Hc.
  rewrite (lookup_total_correct _ _ _ Hxs).
  rewrite list_index_ok by lia. simpl.
  by rewrite (list_lookup_total_correct _ _ _ Hc).
Qed.

Lemma setitem_shaped (n : Z) (al : bool) (st : state) (w : site) (i j : Z) (x : R) :
  shaped n al st -> 0 <= i < n -> 0 <= j <= i ->
  exists st',
    setitem w i j x st = Ok st'
    /\ shaped n al st'
    /\ cell_of st' (target n al w i) i j = Some (Some x)
    /\ (forall w' i' j', 0 <= j' -> (w', i', j') <> (target n al w i, i, j) ->
          cell_of st' w' i' j' = cell_of st w' i' j').
Proof.
  intros [Hd Hdom Hh] Hi Hj. unfold setitem, dict_get.
  rewrite Hd by done. simpl.
  destruct (Hh (target n al w i) i Hi) as (xs & Hxs & Hlen).
  rewrite (lookup_total_correct _ _ _ Hxs).
  rewrite list_index_ok by lia. simpl.
  eexists. split; [done|]. split; [|split].
  - split; [by destruct w | by destruct w |].
    intros w' i' Hi'. simpl.
    destruct (decide ((target n al w i, i) = (w', i'))) as [Heq|Hne].
    + rewrite <- Heq, lookup_insert_eq. eexists. split; [done|].
      rewrite length_insert. by inversion Heq; subst.
    + rewrite lookup_insert_ne by done. by apply Hh.
  - unfold cell_of. simpl. rewrite lookup_insert_eq. simpl.
    apply list_lookup_insert_eq. lia.
  - intros w' i' j' Hj' Hne. unfold cell_of. simpl.
    destruct (decide ((target n al w i, i) = (w', i'))) as [Heq|Hne'].
    + rewrite <- Heq, lookup_insert_eq, Hxs. simpl.
      apply list_lookup_insert_ne.
      intros Hjj. apply Hne. inversion Heq; subst. f_equal. lia.
    + by rewrite lookup_insert_ne.
Qed.

Lemma lattice_shaped (n : Z) (al : bool) (st : state) (w : site) (i j : Z) (x : R) :
  shaped n al st -> 0 <= i < n -> 0 <= j ->
  cell_of st (target n al w i) i j = Some (Some x) ->
  lattice w st i j = Some x.
Proof.
  intros [Hd _ _] Hi Hj Hc. unfold lattice.
  rewrite Hd by done. simpl.
  unfold cell_of in Hc.
  destruct (heap st !! (target n al w i, i)) as [xs|]; [|done]. simpl in *.
  destruct (Z.leb_spec 0 j); [|lia].
  by rewrite Hc.
Qed.

(** ** The forward pass *)

Section Forward.

Variables (option_type : string).
Variables (strike_price stock_init_price u v : R).

#[local] Abbreviation inv := (fwd_inv option_type strike_price stock_init_price u v).
#[local] Abbreviation fwd_node :=
  (forward_node option_type strike_price stock_init_price u v).
#[local] Abbreviation fwd_pass :=
  (forward_pass option_type strike_price stock_init_price u v).

Lemma forward_node_ok (n i j : Z) (st : state) :
  valid_kind option_type ->
  0 <= i < n -> 0 <= j <= i ->
  (Rabs (u ^ Z.to_nat (i - j)) < overflow_bound)%R ->
  (Rabs (v ^ Z.to_nat j) < overflow_bound)%R ->
  inv n i j st ->
  exists st', fwd_node i j st = Ok st' /\ inv n i (j + 1) st'.
Proof.
  intros Hk Hi Hj Hu Hv [Hsh Hfill]. unfold forward_node.
  rewrite !py_pow_ok by (done || lia). simpl.
  destruct (setitem_shaped n false st Stock i j
              (stock_init_price * u ^ Z.to_nat (i - j) * v ^ Z.to_nat j)%R
              Hsh Hi Hj) as (st1 & -> & Hsh1 & Hc1 & Hfr1).
  simpl in *.
  rewrite (getitem_shaped n false st1 Stock i j _ Hsh1 Hi Hj Hc1). simpl.
  rewrite option_payoff_valid by done. simpl.
  destruct (setitem_shaped n false st1 Payoff i j
              (intrinsic option_type strike_price
                 (stock_init_price * u ^ Z.to_nat (i - j) * v ^ Z.to_nat j)%R)
              Hsh1 Hi Hj) as (st2 & -> & Hsh2 & Hc2 & Hfr2).
  simpl in *.
  exists st2. split; [done|]. split; [done|].
  intros i' j' Hj' Hlt.
  destruct (decide (i' = i /\ j' = j)) as [[-> ->]|Hne].
  - split.
    + rewrite Hfr2 by (lia || congruence). exact Hc1.
    + exact Hc2.
  - assert (filled option_type strike_price stock_init_price u v st i' j')
      as [HS HP] by (apply Hfill; lia).
    split.
    + rewrite Hfr2 by (lia || congruence).
      rewrite Hfr1; [done | lia |]. intros [= -> ->]. lia.
    + rewrite Hfr2; [| lia | intros [= -> ->]; lia].
      rewrite Hfr1 by (lia || congruence). done.
Qed.

(** A node either completes or one of its two powers overflows. *)
Lemma forward_node_cases (n i j : Z) (st : state) :
  valid_kind option_type ->
  0 <= i < n -> 0 <= j <= i ->
  inv n i j st ->
  (exists st', fwd_node i j st = Ok st' /\ inv n i (j + 1) st')
  \/ fwd_node i j st = Raise OverflowError.
Proof.
  intros Hk Hi Hj Hinv.
  destruct (py_pow_cases u (i - j)) as [Hu|Hu]; [lia| |].
  2:{ right. unfold forward_node. by rewrite Hu. }
  destruct (py_pow_cases v j) as [Hv|Hv]; [lia| |].
  2:{ right. unfold forward_node. by rewrite Hu, Hv. }
  left. apply (forward_node_ok n); try done.
  - apply (py_pow_returns u (i - j) _ ltac:(lia) Hu).
  - apply (py_pow_returns v j _ ltac:(lia) Hv).
Qed.

(** A node that completes has computed both of its powers. *)
Lemma forward_node_returns (i j : Z) (st st' : state) :
  0 <= j <= i ->
  fwd_node i j st = Ok st' ->
  (Rabs (u ^ Z.to_nat (i - j)) < overflow_bound)%R
  /\ (Rabs (v ^ Z.to_nat j) < overflow_bound)%R.
Proof.
  intros Hj. unfold forward_node.
  destruct (py_pow u (i - j)) as [pu|e] eqn:Hu; [|discriminate]. simpl.
  destruct (py_pow v j) as [pv|e] eqn:Hv; [|discriminate]. intros _.
  split.
  - apply (py_pow_returns u (i - j) pu ltac:(lia) Hu).
  - apply (py_pow_returns v j pv ltac:(lia) Hv).
Qed.

Lemma forward_pass_ok (n : Z) :
  valid_kind option_type ->
  0 <= n ->
  no_overflow u (n - 1) -> no_overflow v (n - 1) ->
  exists st, fwd_pass n (init_state n) = Ok st /\ inv n n 0 st.
Proof.
  intros Hk Hn Hu Hv. unfold forward_pass.
  apply (for_each_range (fun i st => inv n i 0 st)); [done | |].
  - split; [apply init_state_shaped|]. intros i' j' ? ?. lia.
  - intros i st Hi Hinv.
    destruct (for_each_range (fun j st => inv n i j st)
                (fun j => fwd_node i j) (i + 1) st) as (st' & Hrun & Hinv');
      [lia | done | |].
    + intros j s Hj Hs. apply (forward_node_ok n); try (done || lia).
      * apply Hu. lia.
      * apply Hv. lia.
    + exists st'. split; [done|].
      destruct Hinv' as [Hsh Hfill]. split; [done|].
      intros i' j' Hj' Hlt. apply Hfill; lia.
Qed.

(** For a valid kind the forward pass completes or raises
    [OverflowError], nothing else. *)
Lemma forward_pass_cases (n : Z) :
  valid_kind option_type ->
  0 <= n ->
  (exists st, fwd_pass n (init_state n) = Ok st /\ inv n n 0 st)
  \/ fwd_pass n (init_state n) = Raise OverflowError.
Proof.
  intros Hk Hn. unfold forward_pass.
  apply (for_each_range_cases (fun i st => inv n i 0 st)); [done | |].
  - split; [apply init_state_shaped|]. intros i' j' ? ?. lia.
  - intros i st Hi Hinv.
    destruct (for_each_range_cases (fun j st => inv n i j st)
                (fun j => fwd_node i j) OverflowError (i + 1) st)
      as [(st' & Hrun & Hinv') | Hr]; [lia | done | | | by right].
    + intros j s Hj Hs. apply (forward_node_cases n); (done || lia).
    + left. exists st'. split; [done|].
      destruct Hinv' as [Hsh Hfill]. split; [done|].
      intros i' j' Hj' Hlt. apply Hfill; lia.
Qed.

(** A forward pass that completes has raised no power to overflow. *)
Lemma forward_pass_returns (n : Z) (st st' : state) :
  fwd_pass n st = Ok st' ->
  no_overflow u (n - 1) /\ no_overflow v (n - 1).
Proof.
  intros Hrun. unfold forward_pass in Hrun.
  assert (forall k, 0 <= k <= n - 1 ->
            exists s s', for_each (py_range (k + 1)) (fun j => fwd_node k j) s = Ok s')
    as Hlayer.
  { intros k Hk. apply (for_each_returns _ _ _ _ Hrun).
    unfold py_range. apply elem_of_seqZ. lia. }
  split; intros k Hk; destruct (Hlayer k Hk) as (s & s' & Hin).
  - destruct (for_each_returns _ _ _ _ Hin 0) as (t & t' & Hnode).
    { unfold py_range. apply elem_of_seqZ. lia. }
    apply forward_node_returns in Hnode as [Hu _]; [|lia].
    by replace (k - 0) with k in Hu by lia.
  - destruct (for_each_returns _ _ _ _ Hin k) as (t & t' & Hnode).
    { unfold py_range. apply elem_of_seqZ. lia. }
    by apply forward_node_returns in Hnode as [_ Hv]; [|lia].
Qed.

(** With a kind that is neither call nor put the payoff evaluation of
    node [(0, 0)] raises. *)
Lemma forward_node_invalid (n : Z) (st : state) :
  option_type <> "call"%string -> option_type <> "put"%string ->
  shaped n false st -> 0 < n ->
  fwd_node 0 0 st = Raise OptionTypeInvalid.
Proof.
  intros Hc Hp Hsh Hn. unfold forward_node.
  change (0 - 0) with 0. rewrite !py_pow_zero. simpl.
  destruct (setitem_shaped n false st Stock 0 0
              (stock_init_price * 1 * 1)%R Hsh) as (st1 & -> & Hsh1 & Hc1 & _);
    [lia | lia |].
  simpl in *.
  rewrite (getitem_shaped n false st1 Stock 0 0 _ Hsh1) by (done || lia). simpl.
  by rewrite option_payoff_invalid.
Qed.

Lemma forward_pass_invalid (n : Z) :
  option_type <> "call"%string -> option_type <> "put"%string ->
  0 < n ->
  fwd_pass n (init_state n) = Raise OptionTypeInvalid.
Proof.
  intros Hc Hp Hn. unfold forward_pass.
  rewrite for_each_range_first by done.
  rewrite for_each_range_first by lia.
  rewrite (forward_node_invalid n) by (done || apply init_state_shaped).
  done.
Qed.

End Forward.

(** ** The terminal condition and the backward pass *)

Section Backward.

Variables (option_type option_species : string).
Variables (strike_price stock_init_price u v risk_free_rate step_size : R).

#[local] Abbreviation D := (exp (risk_free_rate * step_size)).
#[local] Abbreviation payoff :=
  (payoff_at option_type strike_price stock_init_price u v).
#[local] Abbreviation value :=
  (value_at option_type strike_price stock_init_price u v).
#[local] Abbreviation inv :=
  (bwd_inv option_type strike_price stock_init_price u v).
#[local] Abbreviation bwd_node :=
  (backward_node option_type option_species strike_price u v risk_free_rate).
#[local] Abbreviation bwd_pass :=
  (backward_pass option_type option_species strike_price u v risk_free_rate).

Lemma terminal_condition_ok (am : bool) (n : Z) (st : state) :
  0 < n ->
  fwd_inv option_type strike_price stock_init_price u v n n 0 st ->
  exists st', terminal_condition n st = Ok st' /\ inv am D n 0 0 st'.
Proof.
  intros Hn [[Hd Hdom Hh] Hfill]. unfold terminal_condition, dict_get.
  assert (option_payoffs st !! (n - 1) = Some (Payoff, n - 1)) as HP
    by (apply (Hd Payoff); lia).
  rewrite HP. simpl.
  eexists. split; [done|]. split; [|split].
  - split; [| |done].
    + intros w i Hi.
      destruct w; simpl; [by apply (Hd Stock) | by apply (Hd Payoff) |].
      destruct (decide (i = n - 1)) as [->|Hne].
      * by rewrite lookup_insert_eq, Z.eqb_refl.
      * rewrite lookup_insert_ne by done.
        pose proof (Hd Value i Hi) as HV. simpl in HV. rewrite HV.
        by destruct (Z.eqb_spec i (n - 1)).
    + intros w i Hi.
      destruct w; simpl; [by apply (Hdom Stock) | by apply (Hdom Payoff) |].
      rewrite lookup_insert_ne by lia. by apply (Hdom Value).
  - intros i' j' Hj' Hi'. apply Hfill; lia.
  - intros i' j' Hj' Hi' Hlt.
    assert (i' = n - 1) as -> by lia.
    simpl. rewrite Z.eqb_refl.
    replace (Z.to_nat (n - 1 - (n - 1))) with 0%nat by lia. simpl.
    apply Hfill; lia.
Qed.

(** The two successors of node [(n-i-2, j)] as the backward loop reads
    them. *)
Lemma successors_read (am : bool) (n i k j : Z) (st : state) :
  inv am D n i k st ->
  0 <= i -> 0 <= j < n - i - 1 ->
  getitem Value (n - i - 1) j st
  = Ok (Some (value am D (Z.to_nat i) (n - i - 1) j))
  /\ getitem Value (n - i - 1) (j + 1) st
     = Ok (Some (value am D (Z.to_nat i) (n - i - 1) (j + 1))).
Proof.
  intros (Hsh & _ & Hval) Hi Hj. split.
  - apply (getitem_shaped n true); [done | lia | lia |].
    rewrite Hval by lia. do 3 f_equal. lia.
  - apply (getitem_shaped n true); [done | lia | lia |].
    rewrite Hval by lia. do 3 f_equal. lia.
Qed.

Lemma continuation_ok (am : bool) (n i k j : Z) (st : state) :
  u <> v ->
  inv am D n i k st ->
  0 <= i -> 0 <= j < n - i - 1 ->
  continuation u v risk_free_rate step_size (n - i - 1) j st
  = Ok (cont u v D (value am D (Z.to_nat i) (n - i - 1) j)
                   (value am D (Z.to_nat i) (n - i - 1) (j + 1))).
Proof.
  intros Huv Hinv Hi Hj. unfold continuation.
  destruct (successors_read am n i k j st Hinv Hi Hj) as [-> ->]. simpl.
  rewrite py_div_ok by lra. done.
Qed.

Lemma backward_node_ok (am : bool) (n i j : Z) (st : state) :
  valid_kind option_type -> style_is option_species am -> u <> v ->
  0 <= i -> 0 <= j < n - i - 1 ->
  inv am D n i j st ->
  exists st', bwd_node step_size n i j st = Ok st' /\ inv am D n i (j + 1) st'.
Proof.
  intros Hk Hstyle Huv Hi Hj Hinv.
  pose proof (continuation_ok am n i j j st Huv Hinv Hi Hj) as Hcont.
  destruct Hinv as (Hsh & Hfill & Hval).
  assert (exists x, (x = if am
                         then py_max (cont u v D (value am D (Z.to_nat i) (n - i - 1) j)
                                             (value am D (Z.to_nat i) (n - i - 1) (j + 1)))
                                     (payoff (n - i - 1 - 1) j)
                         else cont u v D (value am D (Z.to_nat i) (n - i - 1) j)
                                     (value am D (Z.to_nat i) (n - i - 1) (j + 1)))
                    /\ bwd_node step_size n i j st
                       = setitem Value (n - i - 1 - 1) j x st) as (x & Hx & ->).
  { unfold backward_node.
    destruct Hstyle as [[-> ->]|[-> ->]]; simpl; rewrite Hcont; simpl.
    - eexists. split; done.
    - destruct (Hfill (n - i - 1 - 1) j) as [HS _]; [lia | lia |].
      rewrite (getitem_shaped n true st Stock (n - i - 1 - 1) j _ Hsh) by (done || lia).
      simpl. rewrite option_payoff_valid by done. simpl.
      eexists. split; done. }
  destruct (setitem_shaped n true st Value (n - i - 1 - 1) j x Hsh)
    as (st' & -> & Hsh' & Hc & Hfr); [lia | lia |].
  assert (target n true Value (n - i - 1 - 1) = Value) as Ht.
  { simpl. destruct (Z.eqb_spec (n - i - 1 - 1) (n - 1)); [lia | done]. }
  rewrite Ht in Hc, Hfr.
  exists st'. split; [done|]. split; [done|]. split.
  - intros i' j' Hj' Hi'. destruct (Hfill i' j' Hj' Hi') as [HS HP].
    split; (rewrite Hfr; [done | lia | congruence]).
  - intros i' j' Hj' Hi' Hlt.
    destruct (decide (i' = n - 2 - i /\ j' = j)) as [[-> ->]|Hne].
    + replace (n - 2 - i) with (n - i - 1 - 1) by lia.
      rewrite Ht, Hc. do 2 f_equal. rewrite Hx.
      replace (Z.to_nat (n - 1 - (n - i - 1 - 1))) with (S (Z.to_nat i)) by lia.
      simpl. replace (n - i - 1 - 1 + 1) with (n - i - 1) by lia.
      by destruct am.
    + rewrite Hfr; [apply Hval; lia | lia |].
      intros [= Hw -> ->]. lia.
Qed.

Lemma backward_pass_ok (am : bool) (n : Z) (st : state) :
  valid_kind option_type -> style_is option_species am -> u <> v -> 0 < n ->
  inv am D n 0 0 st ->
  exists st', bwd_pass step_size n st = Ok st' /\ inv am D n n 0 st'.
Proof.
  intros Hk Hstyle Huv Hn Hinv. unfold backward_pass.
  apply (for_each_range (fun i st => inv am D n i 0 st)); [lia | done |].
  intros i s Hi Hs.
  destruct (for_each_range (fun j st => inv am D n i j st)
              (fun j => bwd_node step_size n i j) (n - i - 1) s)
    as (s' & Hrun & Hinv'); [lia | done | |].
  - intros j s0 Hj Hs0. apply backward_node_ok; (done || lia).
  - exists s'. split; [done|].
    destruct Hinv' as (Hsh & Hfill & Hval). split; [done|]. split; [done|].
    intros i' j' Hj' Hi' Hlt. apply Hval; lia.
Qed.

(** A style that is neither european nor american raises at the first
    node of the backward loop, whatever the store holds. *)
Lemma backward_pass_invalid (n : Z) (st : state) :
  option_species <> "european"%string -> option_species <> "american"%string ->
  1 < n ->
  bwd_pass step_size n st = Raise OptionSpeciesInvalid.
Proof.
  intros He Ha Hn. unfold backward_pass.
  rewrite for_each_range_first by lia.
  rewrite for_each_range_first by lia.
  unfold backward_node.
  destruct (String.eqb_spec option_species "european"); [done|].
  destruct (String.eqb_spec option_species "american"); done.
Qed.

(** With [u = v] the first Python division of the backward loop raises. *)
Lemma backward_pass_div0 (am : bool) (n : Z) (st : state) :
  style_is option_species am -> u = v -> 1 < n ->
  inv am D n 0 0 st ->
  bwd_pass step_size n st = Raise ZeroDivisionError.
Proof.
  intros Hstyle Huv Hn Hinv. unfold backward_pass.
  rewrite for_each_range_first by lia.
  rewrite for_each_range_first by lia.
  assert (continuation u v risk_free_rate step_size (n - 0 - 1) 0 st
          = Raise ZeroDivisionError) as Hc.
  { unfold continuation.
    destruct (successors_read am n 0 0 0 st Hinv) as [-> ->]; [lia | lia |].
    simpl. replace (u - v)%R with 0%R by lra. by rewrite py_div_zero. }
  unfold backward_node.
  destruct Hstyle as [[-> ->]|[-> ->]]; simpl; rewrite Hc; done.
Qed.

End Backward.

(** ** End-to-end behaviour of [option_prices] *)

Lemma no_overflow_zero (x : R) : no_overflow x 0.
Proof.
  intros k Hk. replace k with 0 by lia. simpl.
  rewrite Rabs_R1. apply Rlt_le_trans with 2%R; [lra|].
  apply Rle_trans with float_max; [apply two_le_float_max|].
  apply Rlt_le, float_max_lt_bound.
Qed.

Section Main.

Variables (option_type option_species : string).
Variables (strike_price stock_init_price u v risk_free_rate tot_time : R).
Variable (n_steps : Z).

#[local] Abbreviation run :=
  (option_prices option_type option_species strike_price stock_init_price
     u v risk_free_rate tot_time n_steps).
#[local] Abbreviation D := (exp (risk_free_rate * (tot_time / IZR n_steps))).
#[local] Abbreviation fin :=
  (final option_type strike_price stock_init_price u v).
#[local] Abbreviation binv :=
  (bwd_inv option_type strike_price stock_init_price u v).
#[local] Abbreviation bwd :=
  (backward_pass option_type option_species strike_price u v
     risk_free_rate (tot_time / IZR n_steps) (n_steps + 1)).

Lemma bwd_inv_final (am : bool) (st : state) :
  0 <= n_steps ->
  binv am D (n_steps + 1) (n_steps + 1) 0 st ->
  fin am D n_steps st.
Proof.
  intros Hn (Hsh & Hfill & Hval). split; [done|].
  intros i j Hj Hi.
  destruct (Hfill i j) as [HS HP]; [lia | lia |].
  split; [|split].
  - by apply (lattice_shaped (n_steps + 1) true); [| lia | lia |].
  - by apply (lattice_shaped (n_steps + 1) true); [| lia | lia |].
  - apply (lattice_shaped (n_steps + 1) true); [done | lia | lia |].
    rewrite Hval by lia. do 3 f_equal. lia.
Qed.

Lemma step_size_ok :
  1 <= n_steps ->
  py_div tot_time (IZR n_steps) = Ok (tot_time / IZR n_steps)%R.
Proof. intros Hn. apply py_div_ok. apply not_0_IZR. lia. Qed.

(** The run up to the backward pass, for a valid kind: the forward pass
    raises [OverflowError], or the backward pass starts on a store with
    complete stock and payoff lattices. *)
Lemma option_prices_prefix_cases (am : bool) :
  valid_kind option_type -> 1 <= n_steps ->
  run = Raise OverflowError
  \/ exists st,
       binv am D (n_steps + 1) 0 0 st
       /\ run = (st' ← bwd st; Ok st').
Proof.
  intros Hk Hn. unfold option_prices.
  rewrite step_size_ok by done. simpl.
  destruct (forward_pass_cases option_type strike_price stock_init_price u v
              (n_steps + 1) Hk) as [(st1 & -> & H1) | ->]; [lia | | by left].
  simpl.
  destruct (terminal_condition_ok option_type strike_price stock_init_price u v
              risk_free_rate (tot_time / IZR n_steps) am (n_steps + 1) st1)
    as (st2 & -> & H2); [lia | done |]. simpl.
  right. by exists st2.
Qed.

Lemma option_prices_prefix (am : bool) :
  valid_kind option_type -> 1 <= n_steps ->
  no_overflow u n_steps -> no_overflow v n_steps ->
  exists st,
    binv am D (n_steps + 1) 0 0 st
    /\ run = (st' ← bwd st; Ok st').
Proof.
  intros Hk Hn Hu Hv. unfold option_prices.
  rewrite step_size_ok by done. simpl.
  destruct (forward_pass_ok option_type strike_price stock_init_price u v
              (n_steps + 1) Hk) as (st1 & -> & H1);
    [lia | by replace (n_steps + 1 - 1) with n_steps by lia
         | by replace (n_steps + 1 - 1) with n_steps by lia |].
  simpl.
  destruct (terminal_condition_ok option_type strike_price stock_init_price u v
              risk_free_rate (tot_time / IZR n_steps) am (n_steps + 1) st1)
    as (st2 & -> & H2); [lia | done |]. simpl.
  by exists st2.
Qed.

(** A run that returns has raised no power to overflow. *)
Lemma option_prices_returns_no_overflow (st : state) :
  run = Ok st -> no_overflow u n_steps /\ no_overflow v n_steps.
Proof.
  unfold option_prices.
  destruct (py_div tot_time (IZR n_steps)) as [step|e]; [|discriminate]. simpl.
  destruct (forward_pass option_type strike_price stock_init_price u v
              (n_steps + 1) (init_state (n_steps + 1))) as [st1|e] eqn:Hf;
    [|discriminate].
  intros _. apply forward_pass_returns in Hf.
  by replace (n_steps + 1 - 1) with n_steps in Hf by lia.
Qed.

Lemma backward_from_prefix (am : bool) (st2 : state) :
  valid_kind option_type -> style_is option_species am -> u <> v ->
  1 <= n_steps ->
  binv am D (n_steps + 1) 0 0 st2 ->
  exists st, bwd st2 = Ok st /\ fin am D n_steps st.
Proof.
  intros Hk Hs Huv Hn H2.
  destruct (backward_pass_ok option_type option_species strike_price
              stock_init_price u v risk_free_rate (tot_time / IZR n_steps)
              am (n_steps + 1) st2) as (st3 & Hrun & H3); [done.. | lia | done |].
  exists st3. split; [done|]. apply bwd_inv_final; [lia | done].
Qed.

Lemma option_prices_ok (am : bool) :
  valid_kind option_type -> style_is option_species am -> u <> v ->
  1 <= n_steps ->
  no_overflow u n_steps -> no_overflow v n_steps ->
  exists st, run = Ok st /\ fin am D n_steps st.
Proof.
  intros Hk Hs Huv Hn Hu Hv.
  destruct (option_prices_prefix am Hk Hn Hu Hv) as (st2 & H2 & ->).
  destruct (backward_from_prefix am st2) as (st3 & -> & H3); [done..|].
  by exists st3.
Qed.

Lemma option_prices_invalid_kind :
  option_type <> "call"%string -> option_type <> "put"%string ->
  1 <= n_steps ->
  run = Raise OptionTypeInvalid.
Proof.
  intros Hc Hp Hn. unfold option_prices.
  rewrite step_size_ok by done. simpl.
  rewrite forward_pass_invalid by (done || lia). done.
Qed.



(** The outcome of a call with [n_steps >= 1] and a valid kind. *)
Lemma option_prices_valid_kind_cases :
  valid_kind option_type -> 1 <= n_steps ->
  run = Raise OverflowError
  \/ (~ valid_style option_species /\ run = Raise OptionSpeciesInvalid)
  \/ (valid_style option_species /\ u = v /\ run = Raise ZeroDivisionError)
  \/ (exists am st, style_is option_species am /\ u <> v
                    /\ run = Ok st /\ fin am D n_steps st).
Proof.
  intros Hk Hn.
  destruct (style_cases option_species) as [[am Hs] | [He Ha]].
  - destruct (option_prices_prefix_cases am Hk Hn) as [Hr | (st2 & H2 & Hr)];
      [by left|].
    assert (valid_style option_species) as Hvs
      by (destruct Hs as [[-> _]|[-> _]]; by (left + right)).
    destruct (Req_dec_T u v) as [Huv|Huv].
    + do 2 right; left. split; [done|]. split; [done|]. rewrite Hr.
      rewrite (backward_pass_div0 option_type option_species strike_price
                 stock_init_price u v risk_free_rate (tot_time / IZR n_steps)
                 am (n_steps + 1) st2) by (done || lia).
      done.
    + do 3 right.
      destruct (backward_from_prefix am st2) as (st3 & Hb & H3); [done..|].
      exists am, st3. repeat (split; [done|]). split; [|done].
      by rewrite Hr, Hb.
  - destruct (option_prices_prefix_cases false Hk Hn) as [Hr | (st2 & H2 & Hr)];
      [by left|].
    right; left. split; [by intros [?|?]|]. rewrite Hr.
    rewrite backward_pass_invalid by (done || lia). done.
Qed.

(** Every store the call returns is the one described by [final]. *)
Lemma option_prices_returns (st : state) :
  valid_kind option_type -> 1 <= n_steps ->
  run = Ok st ->
  exists am, style_is option_species am /\ u <> v /\ fin am D n_steps st.
Proof.
  intros Hk Hn Hrun.
  destruct (option_prices_valid_kind_cases Hk Hn)
    as [Hr | [[_ Hr] | [(_ & _ & Hr) | (am & st' & Hs & Huv & Hr & Hfin)]]];
    rewrite Hrun in Hr; try discriminate.
  injection Hr as ->. by exists am.
Qed.

(** With [n_steps = 0] only the step-size division stands in the way: the
    three phases that follow it, run on one layer, leave [S0] and its
    payoff in single-node lattices. *)
Lemma single_layer_phases (step_size : R) :
  valid_kind option_type ->
  exists st,
    (st ← forward_pass option_type strike_price stock_init_price u v 1 (init_state 1);
     st ← terminal_condition 1 st;
     backward_pass option_type option_species strike_price u v risk_free_rate
       step_size 1 st) = Ok st
    /\ lattice Stock st 0 0 = Some stock_init_price
    /\ lattice Payoff st 0 0 = Some (payoff_spec option_type stock_init_price strike_price)
    /\ lattice Value st 0 0 = Some (payoff_spec option_type stock_init_price strike_price).
Proof.
  intros Hk.
  destruct (forward_pass_ok option_type strike_price stock_init_price u v 1 Hk)
    as (st1 & -> & H1); [lia | apply no_overflow_zero | apply no_overflow_zero |].
  simpl.
  destruct (terminal_condition_ok option_type strike_price stock_init_price u v
              risk_free_rate step_size false 1 st1)
    as (st2 & -> & Hsh & Hfill & Hval); [lia | done |]. simpl.
  exists st2. split.
  - unfold backward_pass. rewrite for_each_range_first by lia.
    rewrite (for_each_range_empty _ (1 - 0 - 1)) by lia. done.
  - destruct (Hfill 0 0) as [HS HP]; [lia | lia |].
    assert (stock_at stock_init_price u v 0 0 = stock_init_price) as Hs0.
    { unfold stock_at. simpl. lra. }
    assert (payoff_at option_type strike_price stock_init_price u v 0 0
            = payoff_spec option_type stock_init_price strike_price) as Hp0.
    { unfold payoff_at. by rewrite intrinsic_spec, Hs0. }
    rewrite Hs0 in HS. rewrite Hp0 in HP.
    split; [|split].
    + by apply (lattice_shaped 1 true); [| lia | lia |].
    + by apply (lattice_shaped 1 true); [| lia | lia |].
    + by apply (lattice_shaped 1 true); [| lia | lia |].
Qed.

End Main.

(** ** Overflow, and two concrete trees *)

Section Overflow.

Variables (option_type option_species : string).
Variables (strike_price stock_init_price u v risk_free_rate tot_time : R).
Variable (n_steps : Z).


End Overflow.

(** The notebook's tree, [u = 1.2], [v = 0.8] and two steps: no power
    comes near the float range. *)
Lemma notebook_powers_fit : powers_fit (6 / 5) 2 /\ powers_fit (4 / 5) 2.
Proof.
  pose proof two_le_float_max as H2.
  split; intros k Hk.
  all: assert (k = 0 \/ k = 1 \/ k = 2) as [-> | [-> | ->]] by lia.
  all: simpl; rewrite Rabs_pos_eq; lra.
Qed.

Lemma notebook_no_overflow : no_overflow (6 / 5) 2 /\ no_overflow (4 / 5) 2.
Proof.
  destruct notebook_powers_fit as [Hu Hv].
  split; by apply powers_fit_no_overflow.
Qed.


(** *** A tree on which early exercise lowers the value

    [u = 1.2], [v = 0.8], [r = 0.2] and one year per step: the risk-free
    growth factor [exp 0.2] exceeds [u], so the weight of the down
    successor in the continuation value is negative. *)




(** ** Properties of the specification *)

(** C1: for a valid kind, a valid style and [n_steps >= 1], every store
    that [option_prices] returns has, at the maturity layer, the same
    number in the value lattice as in the payoff lattice, node for
    node. *)
Theorem terminal_layer_is_payoff
    (option_type option_species : string)
    (strike_price stock_init_price u v risk_free_rate tot_time : R) (n_steps : Z) :
  valid_kind option_type -> valid_style option_species -> 1 <= n_steps ->
  forall st,
    option_prices option_type option_species strike_price
      stock_init_price u v risk_free_rate tot_time n_steps = Ok st ->
    forall j, 0 <= j <= n_steps ->
      exists x, lattice Value st n_steps j = Some x
                /\ lattice Payoff st n_steps j = Some x.
Proof.
  intros Hk Hs Hn st Hrun j Hj.
  destruct (option_prices_returns _ _ _ _ _ _ _ _ _ st Hk Hn Hrun)
    as (am & _ & _ & _ & Hfin).
  destruct (Hfin n_steps j) as (_ & HP & HV); [lia | lia |].
  eexists. split; [|exact HP].
  rewrite HV. by replace (Z.to_nat (n_steps - n_steps)) with 0%nat by lia.
Qed.

Lemma terminal_layer_is_payoff_witness :
  exists st,
    option_prices "put" "european" 100 100 (6 / 5) (4 / 5) (1 / 20) 2 2 = Ok st
    /\ forall j, 0 <= j <= 2 ->
         exists x, lattice Value st 2 j = Some x /\ lattice Payoff st 2 j = Some x.
Proof.
  destruct (option_prices_ok "put" "european" 100 100 (6 / 5) (4 / 5) (1 / 20) 2 2 false)
    as (st & Hrun & _);
    [by right | by left | lra | lia
     | apply notebook_no_overflow | apply notebook_no_overflow |].
  exists st. split; [exact Hrun|].
  apply (terminal_layer_is_payoff "put" "european" 100 100 (6 / 5) (4 / 5)
           (1 / 20) 2 2); [right; reflexivity | left; reflexivity | lia | exact Hrun].
Defined.

(** The maturity layers are one list object: in a returned store the value
    dictionary holds the reference that the payoff dictionary holds. *)
Lemma terminal_layer_aliased
    (option_type option_species : string)
    (strike_price stock_init_price u v risk_free_rate tot_time : R) (n_steps : Z)
    (st : state) :
  valid_kind option_type -> 1 <= n_steps ->
  option_prices option_type option_species strike_price
    stock_init_price u v risk_free_rate tot_time n_steps = Ok st ->
  option_values st !! n_steps = option_payoffs st !! n_steps.
Proof.
  intros Hk Hn Hrun.
  destruct (option_prices_returns _ _ _ _ _ _ _ _ _ st Hk Hn Hrun)
    as (am & _ & _ & [Hd _ _] & _).
  pose proof (Hd Value n_steps) as HV. pose proof (Hd Payoff n_steps) as HP.
  simpl in HV, HP. rewrite HV, HP by lia.
  replace (n_steps + 1 - 1) with n_steps by lia.
  by rewrite Z.eqb_refl.
Qed.

(** C2: for a valid kind and [n_steps = N >= 1], every store the forward
    pass leaves, and every store [option_prices] returns, holds
    [S0 * u^(i-j) * v^j] at every node [(i, j)] of the stock lattice and
    the payoff of that price at the same node of the payoff lattice. *)
Theorem forward_pass_fills_lattices
    (option_type option_species : string)
    (strike_price stock_init_price u v risk_free_rate tot_time : R) (n_steps : Z) :
  valid_kind option_type -> 1 <= n_steps ->
  (forall st,
     forward_pass option_type strike_price stock_init_price u v
       (n_steps + 1) (init_state (n_steps + 1)) = Ok st ->
     forall i j, 0 <= j <= i -> i <= n_steps ->
       lattice Stock st i j
       = Some (stock_init_price * u ^ Z.to_nat (i - j) * v ^ Z.to_nat j)%R
       /\ lattice Payoff st i j
          = Some (payoff_spec option_type
                    (stock_init_price * u ^ Z.to_nat (i - j) * v ^ Z.to_nat j)%R
                    strike_price))
  /\ (forall st,
        option_prices option_type option_species strike_price
          stock_init_price u v risk_free_rate tot_time n_steps = Ok st ->
        forall i j, 0 <= j <= i -> i <= n_steps ->
          lattice Stock st i j
          = Some (stock_init_price * u ^ Z.to_nat (i - j) * v ^ Z.to_nat j)%R
          /\ lattice Payoff st i j
             = Some (payoff_spec option_type
                       (stock_init_price * u ^ Z.to_nat (i - j) * v ^ Z.to_nat j)%R
                       strike_price)).
Proof.
  intros Hk Hn. split.
  - intros st Hrun i j Hj Hi.
    destruct (forward_pass_cases option_type strike_price stock_init_price u v
                (n_steps + 1) Hk) as [(st' & Hrun' & Hsh & Hfill) | Hr]; [lia | |].
    2:{ rewrite Hrun in Hr. discriminate. }
    rewrite Hrun in Hrun'. injection Hrun' as <-.
    destruct (Hfill i j) as [HS HP]; [lia | lia |].
    split.
    + by apply (lattice_shaped (n_steps + 1) false); [| lia | lia |].
    + rewrite <- intrinsic_spec.
      by apply (lattice_shaped (n_steps + 1) false); [| lia | lia |].
  - intros st Hrun i j Hj Hi.
    destruct (option_prices_returns _ _ _ _ _ _ _ _ _ st Hk Hn Hrun)
      as (am & _ & _ & _ & Hfin).
    destruct (Hfin i j Hj Hi) as (HS & HP & _).
    split; [exact HS|]. rewrite <- intrinsic_spec. exact HP.
Qed.

Lemma forward_pass_fills_lattices_witness :
  exists st,
    option_prices "put" "european" 100 100 (6 / 5) (4 / 5) (1 / 20) 2 2 = Ok st
    /\ forall i j, 0 <= j <= i -> i <= 2 ->
         lattice Stock st i j
         = Some (100 * (6 / 5) ^ Z.to_nat (i - j) * (4 / 5) ^ Z.to_nat j)%R
         /\ lattice Payoff st i j
            = Some (payoff_spec "put"
                      (100 * (6 / 5) ^ Z.to_nat (i - j) * (4 / 5) ^ Z.to_nat j)%R
                      100).
Proof.
  destruct (option_prices_ok "put" "european" 100 100 (6 / 5) (4 / 5) (1 / 20) 2 2 false)
    as (st & Hrun & _);
    [by right | by left | lra | lia
     | apply notebook_no_overflow | apply notebook_no_overflow |].
  exists st. split; [exact Hrun|].
  apply (forward_pass_fills_lattices "put" "european" 100 100 (6 / 5) (4 / 5)
           (1 / 20) 2 2); [right; reflexivity | lia | exact Hrun].
Defined.

(** C3: European style, valid kind, [n_steps = N >= 1], [u <> v]: in every
    store [option_prices] returns, each node [(i_retro - 1, j)] with
    [1 <= i_retro <= N], [0 <= j <= i_retro - 1] holds the discounted
    risk-neutral expectation of its two successors in layer [i_retro]. *)
Theorem european_backward_induction
    (option_type : string)
    (strike_price stock_init_price u v risk_free_rate tot_time : R) (n_steps : Z) :
  valid_kind option_type -> 1 <= n_steps -> u <> v ->
  forall st,
    option_prices option_type "european" strike_price stock_init_price
      u v risk_free_rate tot_time n_steps = Ok st ->
    forall i_retro j, 1 <= i_retro <= n_steps -> 0 <= j <= i_retro - 1 ->
      exists a b,
        lattice Value st i_retro j = Some a
        /\ lattice Value st i_retro (j + 1) = Some b
        /\ lattice Value st (i_retro - 1) j
           = Some ((a - b) / (u - v)
                   + (u * b - v * a)
                     / ((u - v) * exp (risk_free_rate * (tot_time / IZR n_steps))))%R.
Proof.
  intros Hk Hn Huv st Hrun i_retro j Hi Hj.
  destruct (option_prices_returns _ _ _ _ _ _ _ _ _ st Hk Hn Hrun)
    as (am & Hs & _ & _ & Hfin).
  assert (am = false) as -> by (destruct Hs as [[_ ->]|[? _]]; [done | discriminate]).
  destruct (Hfin i_retro j) as (_ & _ & Ha); [lia | lia |].
  destruct (Hfin i_retro (j + 1)) as (_ & _ & Hb); [lia | lia |].
  destruct (Hfin (i_retro - 1) j) as (_ & _ & Hc); [lia | lia |].
  do 2 eexists. split; [exact Ha|]. split; [exact Hb|].
  rewrite Hc.
  replace (Z.to_nat (n_steps - (i_retro - 1)))
    with (S (Z.to_nat (n_steps - i_retro))) by lia.
  simpl. by replace (i_retro - 1 + 1) with i_retro by lia.
Qed.

Lemma european_backward_induction_witness :
  exists st,
    option_prices "put" "european" 100 100 (6 / 5) (4 / 5) (1 / 20) 2 2 = Ok st
    /\ forall i_retro j, 1 <= i_retro <= 2 -> 0 <= j <= i_retro - 1 ->
         exists a b,
           lattice Value st i_retro j = Some a
           /\ lattice Value st i_retro (j + 1) = Some b
           /\ lattice Value st (i_retro - 1) j
              = Some ((a - b) / (6 / 5 - 4 / 5)
                      + (6 / 5 * b - 4 / 5 * a)
                        / ((6 / 5 - 4 / 5) * exp (1 / 20 * (2 / IZR 2))))%R.
Proof.
  destruct (option_prices_ok "put" "european" 100 100 (6 / 5) (4 / 5) (1 / 20) 2 2 false)
    as (st & Hrun & _);
    [by right | by left | lra | lia
     | apply notebook_no_overflow | apply notebook_no_overflow |].
  exists st. split; [exact Hrun|].
  apply (european_backward_induction "put" 100 100 (6 / 5) (4 / 5) (1 / 20) 2 2);
    [right; reflexivity | lia | lra | exact Hrun].
Defined.

(** C4: American style, valid kind, [n_steps = N >= 1], [u <> v]: in every
    store [option_prices] returns, each node [(i_retro - 1, j)] holds the
    larger of the continuation value (the European expression over the
    two successors) and the payoff of the stock price at that node. *)
Theorem american_backward_induction
    (option_type : string)
    (strike_price stock_init_price u v risk_free_rate tot_time : R) (n_steps : Z) :
  valid_kind option_type -> 1 <= n_steps -> u <> v ->
  forall st,
    option_prices option_type "american" strike_price stock_init_price
      u v risk_free_rate tot_time n_steps = Ok st ->
    forall i_retro j, 1 <= i_retro <= n_steps -> 0 <= j <= i_retro - 1 ->
      exists a b s,
        lattice Value st i_retro j = Some a
        /\ lattice Value st i_retro (j + 1) = Some b
        /\ lattice Stock st (i_retro - 1) j = Some s
        /\ lattice Value st (i_retro - 1) j
           = Some (Rmax
                     ((a - b) / (u - v)
                      + (u * b - v * a)
                        / ((u - v)
                           * exp (risk_free_rate * (tot_time / IZR n_steps))))
                     (payoff_spec option_type s strike_price))%R.
Proof.
  intros Hk Hn Huv st Hrun i_retro j Hi Hj.
  destruct (option_prices_returns _ _ _ _ _ _ _ _ _ st Hk Hn Hrun)
    as (am & Hs & _ & _ & Hfin).
  assert (am = true) as -> by (destruct Hs as [[? _]|[_ ->]]; [discriminate | done]).
  destruct (Hfin i_retro j) as (_ & _ & Ha); [lia | lia |].
  destruct (Hfin i_retro (j + 1)) as (_ & _ & Hb); [lia | lia |].
  destruct (Hfin (i_retro - 1) j) as (Hs' & _ & Hc); [lia | lia |].
  do 3 eexists. split; [exact Ha|]. split; [exact Hb|]. split; [exact Hs'|].
  rewrite Hc.
  replace (Z.to_nat (n_steps - (i_retro - 1)))
    with (S (Z.to_nat (n_steps - i_retro))) by lia.
  simpl. replace (i_retro - 1 + 1) with i_retro by lia.
  rewrite py_max_Rmax. unfold payoff_at. by rewrite intrinsic_spec.
Qed.

Lemma american_backward_induction_witness :
  exists st,
    option_prices "put" "american" 100 100 (6 / 5) (4 / 5) (1 / 20) 2 2 = Ok st
    /\ forall i_retro j, 1 <= i_retro <= 2 -> 0 <= j <= i_retro - 1 ->
         exists a b s,
           lattice Value st i_retro j = Some a
           /\ lattice Value st i_retro (j + 1) = Some b
           /\ lattice Stock st (i_retro - 1) j = Some s
           /\ lattice Value st (i_retro - 1) j
              = Some (Rmax
                        ((a - b) / (6 / 5 - 4 / 5)
                         + (6 / 5 * b - 4 / 5 * a)
                           / ((6 / 5 - 4 / 5) * exp (1 / 20 * (2 / IZR 2))))
                        (payoff_spec "put" s 100))%R.
Proof.
  destruct (option_prices_ok "put" "american" 100 100 (6 / 5) (4 / 5) (1 / 20) 2 2 true)
    as (st & Hrun & _);
    [by right | by right | lra | lia
     | apply notebook_no_overflow | apply notebook_no_overflow |].
  exists st. split; [exact Hrun|].
  apply (american_backward_induction "put" 100 100 (6 / 5) (4 / 5) (1 / 20) 2 2);
    [right; reflexivity | lia | lra | exact Hrun].
Defined.

(** C5 (as amended): with [n_steps = 0] the step size [tot_time / n_steps]
    is a division by zero, so [option_prices] raises [ZeroDivisionError]
    for every choice of the other arguments and returns no lattice. *)
Theorem zero_steps_raises
    (option_type option_species : string)
    (strike_price stock_init_price u v risk_free_rate tot_time : R) :
  option_prices option_type option_species strike_price stock_init_price
    u v risk_free_rate tot_time 0 = Raise ZeroDivisionError.
Proof.
  unfold option_prices. by rewrite py_div_zero.
Qed.

(** C5 as stated fails: for [n_steps = 0] and a valid kind no store is
    returned, so there is no single-node lattice holding [S0] and the
    payoff. *)
Lemma zero_steps_returns_nothing :
  ~ exists st,
      option_prices "put" "european" 100 100 (6 / 5) (4 / 5) (1 / 20) 2 0 = Ok st
      /\ lattice Stock st 0 0 = Some 100%R
      /\ lattice Payoff st 0 0 = Some (payoff_spec "put" 100 100)
      /\ lattice Value st 0 0 = Some (payoff_spec "put" 100 100).
Proof.
  intros (st & Hrun & _).
  unfold option_prices in Hrun. rewrite py_div_zero in Hrun. discriminate.
Qed.











(** ** Further properties: which calls return *)

Lemma option_prices_negative_steps
    (option_type option_species : string)
    (strike_price stock_init_price u v risk_free_rate tot_time : R) (n_steps : Z) :
  n_steps <= -1 ->
  option_prices option_type option_species strike_price stock_init_price
    u v risk_free_rate tot_time n_steps = Raise KeyError.
Proof.
  intros Hn. unfold option_prices.
  rewrite py_div_ok by (apply not_0_IZR; lia). simpl.
  unfold forward_pass. rewrite for_each_range_empty by lia. simpl.
  unfold terminal_condition, dict_get.
  destruct (init_state_shaped (n_steps + 1)) as [_ Hdom _].
  pose proof (Hdom Payoff (n_steps + 1 - 1)) as HP. simpl in HP.
  rewrite HP by lia. done.
Qed.

(** The outcome of a call, by cases on its arguments. *)
Lemma option_prices_outcome
    (option_type option_species : string)
    (strike_price stock_init_price u v risk_free_rate tot_time : R) (n_steps : Z) :
  let run := option_prices option_type option_species strike_price
               stock_init_price u v risk_free_rate tot_time n_steps in
  (n_steps = 0 /\ run = Raise ZeroDivisionError)
  \/ (n_steps <= -1 /\ run = Raise KeyError)
  \/ (1 <= n_steps /\ ~ valid_kind option_type /\ run = Raise OptionTypeInvalid)
  \/ (1 <= n_steps /\ valid_kind option_type /\ run = Raise OverflowError)
  \/ (1 <= n_steps /\ valid_kind option_type /\ ~ valid_style option_species
      /\ run = Raise OptionSpeciesInvalid)
  \/ (1 <= n_steps /\ valid_kind option_type /\ valid_style option_species
      /\ u = v /\ run = Raise ZeroDivisionError)
  \/ (1 <= n_steps /\ valid_kind option_type /\ valid_style option_species
      /\ u <> v /\ exists st, run = Ok st).
Proof.
  simpl.
  destruct (Z.eq_dec n_steps 0) as [->|Hn0].
  { left. split; [done|]. unfold option_prices. by rewrite py_div_zero. }
  destruct (Z_le_gt_dec n_steps (-1)) as [Hneg|Hpos].
  { right; left. split; [done|]. by apply option_prices_negative_steps. }
  assert (1 <= n_steps) as Hn by lia.
  assert (valid_kind option_type
          \/ (option_type <> "call"%string /\ option_type <> "put"%string))
    as [Hk | [Hc Hp]].
  { destruct (string_dec option_type "call"); [by left; left|].
    destruct (string_dec option_type "put"); [by left; right|]. by right. }
  2:{ do 2 right; left. split; [done|]. split; [by intros [?|?]|].
      by apply option_prices_invalid_kind. }
  destruct (option_prices_valid_kind_cases option_type option_species strike_price
              stock_init_price u v risk_free_rate tot_time n_steps Hk Hn)
    as [Hr | [[Hs Hr] | [(Hs & Huv & Hr) | (am & st & Hs & Huv & Hr & _)]]].
  - do 3 right; left. done.
  - do 4 right; left. done.
  - do 5 right; left. done.
  - do 6 right. repeat (split; [done|]). split.
    + destruct Hs as [[-> _]|[-> _]]; by (left + right).
    + split; [done|]. by exists st.
Qed.





(** X3: [option_prices] returns a store only if [n_steps >= 1], the kind
    is call or put, the style is european or american, [u <> v], and no
    power [u ** k], [v ** k] with [k <= n_steps] overflowed. *)
Theorem returns_only_for_valid_arguments
    (option_type option_species : string)
    (strike_price stock_init_price u v risk_free_rate tot_time : R) (n_steps : Z) :
  (exists st, option_prices option_type option_species strike_price
                stock_init_price u v risk_free_rate tot_time n_steps = Ok st) ->
  1 <= n_steps /\ valid_kind option_type /\ valid_style option_species
  /\ u <> v /\ no_overflow u n_steps /\ no_overflow v n_steps.
Proof.
  intros [st Hrun].
  pose proof (option_prices_returns_no_overflow _ _ _ _ _ _ _ _ _ st Hrun) as [Hu Hv].
  pose proof (option_prices_outcome option_type option_species strike_price
                stock_init_price u v risk_free_rate tot_time n_steps) as H.
  simpl in H. rewrite Hrun in H.
  destruct H as [[_ H]|[[_ H]|[(_ & _ & H)|[(_ & _ & H)|[(_ & _ & _ & H)
                |[(_ & _ & _ & _ & H)|H]]]]]]; try discriminate.
  destruct H as (? & ? & ? & ? & _). done.
Qed.

Lemma returns_only_for_valid_arguments_witness :
  (exists st, option_prices "put" "european" 100 100 (6 / 5) (4 / 5) (1 / 20) 2 2
              = Ok st)
  /\ 1 <= 2 /\ valid_kind "put" /\ valid_style "european"
  /\ (6 / 5)%R <> (4 / 5)%R /\ no_overflow (6 / 5) 2 /\ no_overflow (4 / 5) 2.
Proof.
  assert (exists st, option_prices "put" "european" 100 100 (6 / 5) (4 / 5)
                       (1 / 20) 2 2 = Ok st) as Hex.
  { destruct (option_prices_ok "put" "european" 100 100 (6 / 5) (4 / 5) (1 / 20) 2 2
                false) as (st & Hrun & _);
      [by right | by left | lra | lia
       | apply notebook_no_overflow | apply notebook_no_overflow |].
    by exists st. }
  split; [exact Hex|].
  apply (returns_only_for_valid_arguments "put" "european" 100 100 (6 / 5) (4 / 5)
           (1 / 20) 2 2 Hex).
Defined.


(** X14: for a valid kind, a valid style, [u <> v], [n_steps = N >= 1]
    small enough to convert to a float, and move factors whose powers
    [u ** k], [v ** k], [k <= N], stay within the float range,
    [option_prices] returns a store. *)
Theorem returns_for_valid_arguments
    (option_type option_species : string)
    (strike_price stock_init_price u v risk_free_rate tot_time : R) (n_steps : Z) :
  valid_kind option_type -> valid_style option_species -> u <> v ->
  1 <= n_steps -> (IZR n_steps <= float_max)%R ->
  powers_fit u n_steps -> powers_fit v n_steps ->
  exists st,
    option_prices option_type option_species strike_price stock_init_price
      u v risk_free_rate tot_time n_steps = Ok st.
Proof.
  intros Hk Hs Huv Hn _ Hu Hv. destruct (valid_style_flag _ Hs) as [am Ham].
  apply powers_fit_no_overflow in Hu, Hv.
  destruct (option_prices_ok option_type option_species strike_price
              stock_init_price u v risk_free_rate tot_time n_steps am)
    as (st & Hrun & _); [done..|].
  by exists st.
Qed.

Lemma returns_for_valid_arguments_witness :
  exists st,
    option_prices "put" "american" 100 100 (6 / 5) (4 / 5) (1 / 20) 2 2 = Ok st.
Proof.
  apply (returns_for_valid_arguments "put" "american" 100 100 (6 / 5) (4 / 5)
           (1 / 20) 2 2).
  - right. reflexivity.
  - right. reflexivity.
  - lra.
  - lia.
  - apply Rle_trans with 2%R; [lra | apply two_le_float_max].
  - apply notebook_powers_fit.
  - apply notebook_powers_fit.
Defined.

(** ** Further properties: the returned object *)

Lemma lattice_layer (w : site) (st : state) (i j : Z) :
  lattice w st i j
  = xs ← layer w st i; if 0 <=? j then mjoin (xs !! Z.to_nat j) else None.
Proof.
  unfold lattice, layer.
  destruct (dict_of w st !! i) as [l|]; [|done]. simpl.
  by destruct (heap st !! l).
Qed.

Lemma lattice_via_cell (n : Z) (al : bool) (st : state) (w : site) (i j : Z) :
  shaped n al st -> 0 <= i < n -> 0 <= j ->
  lattice w st i j = mjoin (cell_of st (target n al w i) i j).
Proof.
  intros [Hd _ _] Hi Hj. unfold lattice, cell_of.
  rewrite Hd by done. simpl.
  destruct (heap st !! (target n al w i, i)) as [xs|]; [|done]. simpl.
  by destruct (Z.leb_spec 0 j); [|lia].
Qed.

Lemma lattice_out_of_range (n : Z) (al : bool) (st : state) (w : site) (i j : Z) :
  shaped n al st -> ~ 0 <= i < n -> lattice w st i j = None.
Proof.
  intros [_ Hdom _] Hi. unfold lattice. by rewrite Hdom.
Qed.

(** A write through dictionary [w] changes the lattices that share the
    written list and no other node. *)
Lemma setitem_lattice (n : Z) (al : bool) (st : state) (w : site) (i j : Z) (x : R) :
  shaped n al st -> 0 <= i < n -> 0 <= j <= i ->
  exists st',
    setitem w i j x st = Ok st'
    /\ forall w' i' j',
         lattice w' st' i' j'
         = if decide (target n al w' i' = target n al w i /\ i' = i /\ j' = j)
           then Some x else lattice w' st i' j'.
Proof.
  intros Hsh Hi Hj.
  destruct (setitem_shaped n al st w i j x Hsh Hi Hj) as (st' & Hset & Hsh' & Hc & Hfr).
  exists st'. split; [done|]. intros w' i' j'.
  destruct (decide (0 <= i' < n)) as [Hi'|Hi'].
  2:{ rewrite !(lattice_out_of_range n al) by done.
      destruct (decide _) as [(_ & -> & _)|_]; [lia | done]. }
  destruct (Z_lt_le_dec j' 0) as [Hj'|Hj'].
  { destruct (decide _) as [(_ & _ & ->)|_]; [lia|].
    unfold lattice. destruct Hsh as [Hd _ _], Hsh' as [Hd' _ _].
    rewrite Hd, Hd' by done. simpl.
    destruct (Z.leb_spec 0 j'); [lia|].
    by destruct (heap st' !! _), (heap st !! _). }
  rewrite (lattice_via_cell n al st') by done.
  rewrite (lattice_via_cell n al st) by done.
  destruct (decide _) as [(Ht & -> & ->)|Hne].
  - by rewrite Ht, Hc.
  - rewrite Hfr; [done | done |]. intros [= ? ? ?]. by apply Hne.
Qed.

(** X5: every store [option_prices] returns has, in each of the three
    dictionaries, exactly the keys [0..n_steps]; layer [i] is a list of
    [i + 1] cells and every cell holds a number. *)
Theorem returned_lattices_are_triangular
    (option_type option_species : string)
    (strike_price stock_init_price u v risk_free_rate tot_time : R) (n_steps : Z) :
  valid_kind option_type -> 1 <= n_steps ->
  forall st,
    option_prices option_type option_species strike_price stock_init_price
      u v risk_free_rate tot_time n_steps = Ok st ->
    forall w i,
      (0 <= i <= n_steps ->
       exists xs, layer w st i = Some xs
                  /\ length xs = Z.to_nat (i + 1)
                  /\ forall c, c ∈ xs -> exists x, c = Some x)
      /\ (~ 0 <= i <= n_steps -> layer w st i = None).
Proof.
  intros Hk Hn st Hrun w i.
  destruct (option_prices_returns _ _ _ _ _ _ _ _ _ st Hk Hn Hrun)
    as (am & _ & _ & [Hd Hdom Hh] & Hfin).
  split.
  - intros Hi.
    assert (exists xs, layer w st i = Some xs /\ length xs = Z.to_nat (i + 1))
      as (xs & Hxs & Hlen).
    { unfold layer. rewrite Hd by lia. simpl. apply Hh. lia. }
    exists xs. split; [done|]. split; [done|].
    intros c Hc. apply list_elem_of_lookup in Hc as [k Hk'].
    pose proof (lookup_lt_Some _ _ _ Hk') as Hlt.
    assert (exists x, lattice w st i (Z.of_nat k) = Some x) as [x Hx].
    { destruct (Hfin i (Z.of_nat k)) as (HS & HP & HV); [lia | lia |].
      destruct w; eauto. }
    rewrite lattice_layer, Hxs in Hx. simpl in Hx.
    destruct (Z.leb_spec 0 (Z.of_nat k)); [|lia].
    rewrite Nat2Z.id, Hk' in Hx. simpl in Hx. by exists x.
  - intros Hi. unfold layer. by rewrite Hdom by lia.
Qed.

Lemma returned_lattices_are_triangular_witness :
  exists st,
    option_prices "put" "european" 100 100 (6 / 5) (4 / 5) (1 / 20) 2 2 = Ok st
    /\ forall w i,
         (0 <= i <= 2 ->
          exists xs, layer w st i = Some xs
                     /\ length xs = Z.to_nat (i + 1)
                     /\ forall c, c ∈ xs -> exists x, c = Some x)
         /\ (~ 0 <= i <= 2 -> layer w st i = None).
Proof.
  destruct (option_prices_ok "put" "european" 100 100 (6 / 5) (4 / 5) (1 / 20) 2 2 false)
    as (st & Hrun & _);
    [by right | by left | lra | lia
     | apply notebook_no_overflow | apply notebook_no_overflow |].
  exists st. split; [exact Hrun|].
  apply (returned_lattices_are_triangular "put" "european" 100 100 (6 / 5) (4 / 5)
           (1 / 20) 2 2); [right; reflexivity | lia | exact Hrun].
Defined.

(** X6: in every store [option_prices] returns, the maturity layer of the
    value lattice is the payoff list itself, not a copy: an assignment
    [option_values[N][j] = x] made on the returned store also changes
    [option_payoffs[N][j]], while an assignment to a value layer below [N]
    leaves the payoff and stock lattices as they were. *)
Theorem maturity_layer_is_shared
    (option_type option_species : string)
    (strike_price stock_init_price u v risk_free_rate tot_time : R) (n_steps : Z) :
  valid_kind option_type -> 1 <= n_steps ->
  forall st,
    option_prices option_type option_species strike_price stock_init_price
      u v risk_free_rate tot_time n_steps = Ok st ->
    option_values st !! n_steps = option_payoffs st !! n_steps
    /\ (forall j x, 0 <= j <= n_steps ->
          exists st', setitem Value n_steps j x st = Ok st'
                      /\ lattice Value st' n_steps j = Some x
                      /\ lattice Payoff st' n_steps j = Some x)
    /\ (forall i j x, 0 <= j <= i -> i < n_steps ->
          exists st', setitem Value i j x st = Ok st'
                      /\ lattice Value st' i j = Some x
                      /\ forall i' j',
                           lattice Payoff st' i' j' = lattice Payoff st i' j'
                           /\ lattice Stock st' i' j' = lattice Stock st i' j').
Proof.
  intros Hk Hn st Hrun.
  destruct (option_prices_returns _ _ _ _ _ _ _ _ _ st Hk Hn Hrun)
    as (am & _ & _ & Hsh & _).
  split; [|split].
  - destruct Hsh as [Hd _ _].
    pose proof (Hd Value n_steps) as HV. pose proof (Hd Payoff n_steps) as HP.
    simpl in HV, HP. rewrite HV, HP by lia.
    replace (n_steps + 1 - 1) with n_steps by lia.
    by rewrite Z.eqb_refl.
  - intros j x Hj.
    destruct (setitem_lattice (n_steps + 1) true st Value n_steps j x Hsh)
      as (st' & Hset & Hlat); [lia | lia |].
    exists st'. split; [done|].
    rewrite !Hlat. simpl.
    replace (n_steps + 1 - 1) with n_steps by lia. rewrite Z.eqb_refl.
    split; by rewrite decide_True.
  - intros i j x Hj Hi.
    destruct (setitem_lattice (n_steps + 1) true st Value i j x Hsh)
      as (st' & Hset & Hlat); [lia | lia |].
    exists st'. split; [done|].
    assert (target (n_steps + 1) true Value i = Value) as Ht.
    { simpl. destruct (Z.eqb_spec i (n_steps + 1 - 1)); [lia | done]. }
    split.
    + rewrite Hlat. by rewrite decide_True.
    + intros i' j'. rewrite !Hlat, Ht.
      split; by rewrite decide_False by (intros [? _]; done).
Qed.

Lemma maturity_layer_is_shared_witness :
  exists st,
    option_prices "put" "american" 100 100 (6 / 5) (4 / 5) (1 / 20) 2 2 = Ok st
    /\ option_values st !! 2 = option_payoffs st !! 2
    /\ (forall j x, 0 <= j <= 2 ->
          exists st', setitem Value 2 j x st = Ok st'
                      /\ lattice Value st' 2 j = Some x
                      /\ lattice Payoff st' 2 j = Some x)
    /\ (forall i j x, 0 <= j <= i -> i < 2 ->
          exists st', setitem Value i j x st = Ok st'
                      /\ lattice Value st' i j = Some x
                      /\ forall i' j',
                           lattice Payoff st' i' j' = lattice Payoff st i' j'
                           /\ lattice Stock st' i' j' = lattice Stock st i' j').
Proof.
  destruct (option_prices_ok "put" "american" 100 100 (6 / 5) (4 / 5) (1 / 20) 2 2 true)
    as (st & Hrun & _);
    [by right | by right | lra | lia
     | apply notebook_no_overflow | apply notebook_no_overflow |].
  exists st. split; [exact Hrun|].
  apply (maturity_layer_is_shared "put" "american" 100 100 (6 / 5) (4 / 5)
           (1 / 20) 2 2); [right; reflexivity | lia | exact Hrun].
Defined.

(** ** Further properties: payoffs *)

Lemma intrinsic_parity (K s : R) :
  (intrinsic "call" K s - intrinsic "put" K s = s - K)%R.
Proof.
  unfold intrinsic, py_max. simpl.
  destruct (Rlt_dec 0 (s - K)), (Rlt_dec 0 (K - s)); lra.
Qed.

(** X7: on the same price and strike, the call and put payoffs differ by
    [S - K], neither is negative, and at most one of them is non-zero. *)
Theorem payoff_parity (S K : R) :
  exists c p,
    option_payoff "call" (Some S) K = Ok c
    /\ option_payoff "put" (Some S) K = Ok p
    /\ (c - p = S - K)%R
    /\ (0 <= c)%R /\ (0 <= p)%R
    /\ (c = 0%R \/ p = 0%R).
Proof.
  exists (intrinsic "call" K S), (intrinsic "put" K S).
  split; [reflexivity|]. split; [reflexivity|].
  split; [apply intrinsic_parity|].
  split; [apply intrinsic_nonneg|]. split; [apply intrinsic_nonneg|].
  unfold intrinsic, py_max. simpl.
  destruct (Rlt_dec 0 (S - K)), (Rlt_dec 0 (K - S)); lra || (by left) || (by right).
Qed.
